(** * A push-based Observable / Observer pair (src/index.ts)

    Shallow embedding of the TypeScript classes [Observer] and [Observable]
    together with the module-level example wiring, followed by the
    properties of the subscription protocol.

    Modelling conventions.
    - A JavaScript object that is mutated after it was created (an
      [Observer]) lives in a heap, a list of cells addressed by position;
      a reference to the object is its address.
    - Consumer callbacks and teardown actions are closures.  They act on
      the part of the JavaScript world that is outside the two classes,
      the type [Env]; they return normally (a callback that throws is
      outside the model) and hold no reference to an Observer, so they
      never call back into one.
    - Every time the code invokes a callback or a teardown action the
      model appends an entry to a log, so that "how many times" and "in
      which order" can be read back. *)

From Stdlib Require Import ZArith Lia.
From stdpp Require Import base option list strings.

Open Scope string_scope.
Open Scope list_scope.
Open Scope nat_scope.

(* ------------------------------------------------------------------ *)
(** ** Payload types *)

Inductive HTTP_METHODS := HTTP_POST_METHOD | HTTP_GET_METHOD.

Definition HTTP_METHODS_value (m : HTTP_METHODS) : string :=
  match m with
  | HTTP_POST_METHOD => "POST"
  | HTTP_GET_METHOD => "GET"
  end.

Inductive HTTP_STATUSES := HTTP_STATUS_OK | HTTP_STATUS_INTERNAL_SERVER_ERROR.

Definition HTTP_STATUSES_value (s : HTTP_STATUSES) : Z :=
  match s with
  | HTTP_STATUS_OK => 200
  | HTTP_STATUS_INTERNAL_SERVER_ERROR => 500
  end.

Inductive Roles := USER | ADMIN.

Definition Roles_value (r : Roles) : string :=
  match r with
  | USER => "user"
  | ADMIN => "admin"
  end.

(** A [Date] is the number of milliseconds since the epoch. *)
Definition Date := Z.

Module IUser.
Record t := mk {
  name : string;
  age : Z;
  roles : list Roles;
  createdAt : Date;
  isDeleated : bool;
}.
End IUser.

Module IRequestObject.
Record params_t := mk_params { id : option string }.
Record t := mk {
  method : HTTP_METHODS;
  host : string;
  path : string;
  params : params_t;
  body : option IUser.t;
}.
End IRequestObject.

(** [{ status: HTTP_STATUSES.HTTP_STATUS_OK }]: the literal type leaves the
    field one possible value. *)
Inductive TStatusOk := StatusOk.
Inductive TStatusError := StatusError.

Definition TStatusOk_status (_ : TStatusOk) : HTTP_STATUSES := HTTP_STATUS_OK.
Definition TStatusError_status (_ : TStatusError) : HTTP_STATUSES :=
  HTTP_STATUS_INTERNAL_SERVER_ERROR.

(* ------------------------------------------------------------------ *)
(** ** The world outside the classes *)

(** [console.log] is the one effect the source itself performs on the
    outside world. *)
Class Console (Env : Type) := console_log : string → Env → Env.

(** The smallest world: the lines printed so far. *)
Definition Lines := list string.

#[global] Instance Lines_console : Console Lines := λ s out, out ++ [s].

(* ------------------------------------------------------------------ *)
(** ** State passing *)

Definition ST (S A : Type) : Type := S → A * S.

#[global] Instance ST_ret {S} : MRet (ST S) := λ A a s, (a, s).
#[global] Instance ST_bind {S} : MBind (ST S) :=
  λ A B k m s, let '(a, s') := m s in k a s'.

Definition exec {S A} (m : ST S A) (s : S) : S := (m s).2.
Definition eval {S A} (m : ST S A) (s : S) : A := (m s).1.

(* ------------------------------------------------------------------ *)
(** ** Callback types *)

Section Callbacks.
Variables Env Err : Type.

(** [TNextFunc = (request) => TStatusOk | void] *)
Definition TNextFunc := IRequestObject.t → Env → option TStatusOk * Env.
(** [TErrorFunc = (error) => TStatusError | void] *)
Definition TErrorFunc := Err → Env → option TStatusError * Env.
(** [TCompleteFunc = () => void] *)
Definition TCompleteFunc := Env → Env.
(** The [() => void] a producer returns. *)
Definition TTeardown := Env → Env.

End Callbacks.

(** The interface declares the three fields as mandatory, but [Observer]
    tests each one for truthiness before the call: a field may be absent. *)
Module IHandlers.
Record t (Env Err : Type) := mk {
  next : option (TNextFunc Env);
  error : option (TErrorFunc Env Err);
  complete : option (TCompleteFunc Env);
}.
Arguments mk {Env Err}.
Arguments next {Env Err}.
Arguments error {Env Err}.
Arguments complete {Env Err}.
End IHandlers.

(** Log entries: which callback of an Observer the code invoked. *)
Inductive Call (Err : Type) :=
| OnNext (value : IRequestObject.t)
| OnError (e : Err)
| OnComplete
| Teardown.
Arguments OnNext {Err}.
Arguments OnError {Err}.
Arguments OnComplete {Err}.
Arguments Teardown {Err}.

Definition is_next {Err} (c : Call Err) : bool :=
  match c with OnNext _ => true | _ => false end.
Definition is_error {Err} (c : Call Err) : bool :=
  match c with OnError _ => true | _ => false end.
Definition is_complete {Err} (c : Call Err) : bool :=
  match c with OnComplete => true | _ => false end.
Definition is_teardown {Err} (c : Call Err) : bool :=
  match c with Teardown => true | _ => false end.

Fixpoint count {A} (p : A → bool) (l : list A) : nat :=
  match l with
  | [] => 0
  | x :: l => (if p x then 1 else 0) + count p l
  end.

(* ------------------------------------------------------------------ *)
(** ** class Observer *)

Module Observer.
Section Class.
Context {Env Err : Type}.

Record t := mk {
  _handlers : IHandlers.t Env Err;
  _isUnsubscribed : bool;
  _unsubscribe : option (TTeardown Env);
}.

(** What a method body sees: the receiver, the outside world, and the
    entries logged so far. *)
Record Frame := mkFrame {
  this : t;
  env : Env;
  log : list (Call Err);
}.

(** A method body that returns nothing. *)
#[local] Abbreviation Method := (ST Frame unit).

Definition get_this : ST Frame t := λ f, (this f, f).

Definition set_isUnsubscribed (b : bool) : Method := λ f,
  (tt, {| this := {| _handlers := _handlers (this f);
                     _isUnsubscribed := b;
                     _unsubscribe := _unsubscribe (this f) |};
          env := env f; log := log f |}).

Definition set_unsubscribe (u : option (TTeardown Env)) : Method := λ f,
  (tt, {| this := {| _handlers := _handlers (this f);
                     _isUnsubscribed := _isUnsubscribed (this f);
                     _unsubscribe := u |};
          env := env f; log := log f |}).

(** Invoke a closure: its effect on the world happens, its result (if it
    has one) is dropped, and the call is logged. *)
Definition invoke (c : Call Err) (effect : Env → Env) : Method := λ f,
  (tt, {| this := this f; env := effect (env f); log := log f ++ [c] |}).

(** [get handlers()] *)
Definition handlers : ST Frame (IHandlers.t Env Err) := λ f, (_handlers (this f), f).

(** [get isUnsubscribed()] *)
Definition isUnsubscribed : ST Frame bool := λ f, (_isUnsubscribed (this f), f).

(** [constructor(handlers)] *)
Definition new (handlers : IHandlers.t Env Err) : t :=
  {| _handlers := handlers; _isUnsubscribed := false; _unsubscribe := None |}.

Definition unsubscribe : Method :=
  set_isUnsubscribed true;;
  this ← get_this;
  match _unsubscribe this with
  | Some teardown => invoke Teardown teardown
  | None => mret tt
  end.

Definition next (value : IRequestObject.t) : Method :=
  this ← get_this;
  match IHandlers.next (_handlers this), negb (_isUnsubscribed this) with
  | Some h, true => invoke (OnNext value) (λ w, (h value w).2)
  | _, _ => mret tt
  end.

Definition error (e : Err) : Method :=
  this ← get_this;
  if negb (_isUnsubscribed this) then
    match IHandlers.error (_handlers this) with
    | Some h => invoke (OnError e) (λ w, (h e w).2)
    | None => mret tt
    end;;
    unsubscribe
  else mret tt.

Definition complete : Method :=
  this ← get_this;
  if negb (_isUnsubscribed this) then
    match IHandlers.complete (_handlers this) with
    | Some h => invoke OnComplete h
    | None => mret tt
    end;;
    unsubscribe
  else mret tt.

End Class.
Arguments t : clear implicits.
Arguments Frame : clear implicits.
Abbreviation Method Env Err := (ST (Frame Env Err) unit).
End Observer.

(* ------------------------------------------------------------------ *)
(** ** The heap of Observers *)

(** A reference to an Observer object. *)
Definition loc := nat.

Section Heap.
Context {Env Err : Type}.

(** The whole program state: the Observer objects created so far, the
    outside world, and the log of callback invocations, each entry tagged
    with the Observer that made the call. *)
Record State := mkState {
  heap : list (Observer.t Env Err);
  world : Env;
  trace : list (loc * Call Err);
}.

(** [new Observer(handlers)]: a fresh object, distinct from all others. *)
Definition alloc (o : Observer.t Env Err) : ST State loc := λ σ,
  (length (heap σ),
   {| heap := heap σ ++ [o]; world := world σ; trace := trace σ |}).

(** [observer.m(...)]: run a method body with [this] bound to the object
    at [l], and write the object back.  References are only ever obtained
    from [alloc], so the [None] branch is never taken by the code. *)
Definition on {A} (l : loc) (m : ST (Observer.Frame Env Err) A) : ST State (option A) := λ σ,
  match heap σ !! l with
  | Some o =>
      let '(a, f) := m (Observer.mkFrame o (world σ) []) in
      (Some a,
       {| heap := <[l := Observer.this f]> (heap σ);
          world := Observer.env f;
          trace := trace σ ++ map (pair l) (Observer.log f) |})
  | None => (None, σ)
  end.

(** An effect of the caller's own on the outside world. *)
Definition effect (g : Env → Env) : ST State unit := λ σ,
  (tt, {| heap := heap σ; world := g (world σ); trace := trace σ |}).

End Heap.
Arguments State : clear implicits.

(* ------------------------------------------------------------------ *)
(** ** Producers *)

(** [TSubscribeFunc = (observer: IObserver) => () => void].  A producer is
    handed the Observer and returns a teardown action; on the way it can
    use what [IObserver] offers ([next], [error], [complete],
    [unsubscribe], [isUnsubscribed]) and act on the outside world.  It is
    represented by the sequence of these steps, so that a statement about
    every producer is a statement about every such sequence. *)
Inductive TSubscribeFunc (Env Err : Type) :=
| Return (teardown : TTeardown Env)
| CallNext (value : IRequestObject.t) (k : TSubscribeFunc Env Err)
| CallError (e : Err) (k : TSubscribeFunc Env Err)
| CallComplete (k : TSubscribeFunc Env Err)
| CallUnsubscribe (k : TSubscribeFunc Env Err)
| ReadIsUnsubscribed (k : bool → TSubscribeFunc Env Err)
| Effect (g : Env → Env) (k : TSubscribeFunc Env Err).
Arguments Return {Env Err}.
Arguments CallNext {Env Err}.
Arguments CallError {Env Err}.
Arguments CallComplete {Env Err}.
Arguments CallUnsubscribe {Env Err}.
Arguments ReadIsUnsubscribed {Env Err}.
Arguments Effect {Env Err}.

(** [this._subscribe(observer)] *)
Fixpoint run {Env Err} (p : TSubscribeFunc Env Err) (observer : loc)
  : ST (State Env Err) (TTeardown Env) :=
  match p with
  | Return teardown => mret teardown
  | CallNext value k => on observer (Observer.next value);; run k observer
  | CallError e k => on observer (Observer.error e);; run k observer
  | CallComplete k => on observer Observer.complete;; run k observer
  | CallUnsubscribe k => on observer Observer.unsubscribe;; run k observer
  | ReadIsUnsubscribed k =>
      b ← on observer Observer.isUnsubscribed;
      run (k (default false b)) observer
  | Effect g k => effect g;; run k observer
  end.

(** [values.forEach((value) => body(value)); k] *)
Fixpoint forEach {Env Err} (values : list IRequestObject.t)
    (body : IRequestObject.t → TSubscribeFunc Env Err → TSubscribeFunc Env Err)
    (k : TSubscribeFunc Env Err) : TSubscribeFunc Env Err :=
  match values with
  | [] => k
  | value :: values => body value (forEach values body k)
  end.

(* ------------------------------------------------------------------ *)
(** ** class Observable *)

(** The object [subscribe] returns: a closure over the Observer whose only
    method is [unsubscribe]. *)
Module Subscription.
Record t := mk { observer : loc }.

Definition unsubscribe {Env Err} (self : t) : ST (State Env Err) unit :=
  on (observer self) Observer.unsubscribe;; mret tt.
End Subscription.

Module Observable.
Section Class.
Context {Env Err : Type}.

Record t := mk { _subscribe : TSubscribeFunc Env Err }.

(** [static from(values)] *)
Definition from `{Console Env} (values : list IRequestObject.t) : t :=
  mk (forEach values (λ value k, CallNext value k)
       (CallComplete
         (Return (console_log "unsubscribed")))).

Definition subscribe (self : t) (obs : IHandlers.t Env Err)
  : ST (State Env Err) Subscription.t :=
  observer ← alloc (Observer.new obs);
  teardown ← run (_subscribe self) observer;
  on observer (Observer.set_unsubscribe (Some teardown));;
  mret (Subscription.mk observer).

End Class.
Arguments t : clear implicits.
End Observable.

(* ------------------------------------------------------------------ *)
(** ** The example wiring at the end of the file *)

Section Example.
Context {Env Err : Type} `{Console Env}.

(** [createdAt: new Date()] is read once, when the module is loaded. *)
Definition userMock (now : Date) : IUser.t :=
  {| IUser.name := "User Name";
     IUser.age := 26;
     IUser.roles := [USER; ADMIN];
     IUser.createdAt := now;
     IUser.isDeleated := false |}.

Definition requestsMock (now : Date) : list IRequestObject.t :=
  [ {| IRequestObject.method := HTTP_POST_METHOD;
       IRequestObject.host := "service.example";
       IRequestObject.path := "user";
       IRequestObject.body := Some (userMock now);
       IRequestObject.params := {| IRequestObject.id := None |} |};
    {| IRequestObject.method := HTTP_GET_METHOD;
       IRequestObject.host := "service.example";
       IRequestObject.path := "user";
       IRequestObject.body := None;
       IRequestObject.params := {| IRequestObject.id := Some "3f5h67s4s" |} |} ].

Definition handleRequest : TNextFunc Env :=
  λ request w, (Some StatusOk, w).

Definition handleError : TErrorFunc Env Err :=
  λ error w, (Some StatusError, w).

Definition handleComplete : TCompleteFunc Env := console_log "complete".

Definition exampleHandlers : IHandlers.t Env Err :=
  {| IHandlers.next := Some handleRequest;
     IHandlers.error := Some handleError;
     IHandlers.complete := Some handleComplete |}.

(** [const requests$ = Observable.from(requestsMock)] *)
Definition requests (now : Date) : Observable.t Env Err :=
  Observable.from (requestsMock now).

(** [const subscription = requests$.subscribe({...})] *)
Definition subscription (now : Date) : ST (State Env Err) Subscription.t :=
  Observable.subscribe (requests now) exampleHandlers.

(** The statements the module runs when it is loaded. *)
Definition main (now : Date) : ST (State Env Err) unit :=
  s ← subscription now;
  Subscription.unsubscribe s.

End Example.

(** The state a freshly loaded module starts from. *)
Definition initial {Env Err} (w : Env) : State Env Err :=
  {| heap := []; world := w; trace := [] |}.

(* ------------------------------------------------------------------ *)
(** ** Vocabulary of the statements *)

(** The calls a holder of an Observer can make on it. *)
Inductive Op (Err : Type) :=
| DoNext (value : IRequestObject.t)
| DoError (e : Err)
| DoComplete
| DoUnsubscribe.
Arguments DoNext {Err}.
Arguments DoError {Err}.
Arguments DoComplete {Err}.
Arguments DoUnsubscribe {Err}.

Definition do_op {Env Err} (op : Op Err) : Observer.Method Env Err :=
  match op with
  | DoNext value => Observer.next value
  | DoError e => Observer.error e
  | DoComplete => Observer.complete
  | DoUnsubscribe => Observer.unsubscribe
  end.

(** The calls of a list, one after the other. *)
Fixpoint do_ops {Env Err} (ops : list (Op Err)) : Observer.Method Env Err :=
  match ops with
  | [] => mret tt
  | op :: ops => do_op op;; do_ops ops
  end.

(** The same call [n] times in a row. *)
Fixpoint times {S} (n : nat) (m : ST S unit) : ST S unit :=
  match n with
  | 0 => mret tt
  | S n => m;; times n m
  end.

(** What a handler set is told when the values [values] and then
    completion are pushed to a live Observer. *)
Definition deliveries {Env Err} (hs : IHandlers.t Env Err)
    (values : list IRequestObject.t) : list (Call Err) :=
  match IHandlers.next hs with Some _ => map OnNext values | None => [] end
  ++ match IHandlers.complete hs with Some _ => [OnComplete] | None => [] end.

(** The values carried by the [OnNext] entries of a log, in order. *)
Fixpoint received {Err} (log : list (Call Err)) : list IRequestObject.t :=
  match log with
  | [] => []
  | OnNext value :: log => value :: received log
  | _ :: log => received log
  end.

(** The effect of an optional [next] handler on the outside world. *)
Definition next_effect {Env} (h : option (TNextFunc Env))
    (value : IRequestObject.t) (w : Env) : Env :=
  match h with
  | Some h => (h value w).2
  | None => w
  end.

Definition error_effect {Env Err} (h : option (TErrorFunc Env Err))
    (e : Err) (w : Env) : Env :=
  match h with
  | Some h => (h e w).2
  | None => w
  end.

Definition complete_effect {Env} (h : option (TCompleteFunc Env)) (w : Env) : Env :=
  match h with
  | Some h => h w
  | None => w
  end.

(** The world after the handlers of [hs] were told [values] and then
    completion. *)
Definition delivered {Env Err} (hs : IHandlers.t Env Err)
    (values : list IRequestObject.t) (w : Env) : Env :=
  complete_effect (IHandlers.complete hs)
    (fold_left (λ w value, next_effect (IHandlers.next hs) value w) values w).

(** The calls logged on the way from state [σ] to state [σ'], oldest
    first, without their tags. *)
Definition calls_since {Env Err} (σ σ' : State Env Err) : list (Call Err) :=
  map snd (drop (length (trace σ)) (trace σ')).

(** An Observer with the flag raised and nothing else changed. *)
Definition closed {Env Err} (o : Observer.t Env Err) : Observer.t Env Err :=
  {| Observer._handlers := Observer._handlers o;
     Observer._isUnsubscribed := true;
     Observer._unsubscribe := Observer._unsubscribe o |}.

(** Concrete objects for the closed examples: a world of printed lines,
    errors that are strings. *)
Definition logTeardown : TTeardown Lines := console_log "unsubscribed".

Definition ping : IRequestObject.t :=
  {| IRequestObject.method := HTTP_GET_METHOD;
     IRequestObject.host := "service.example";
     IRequestObject.path := "ping";
     IRequestObject.params := {| IRequestObject.id := None |};
     IRequestObject.body := None |}.

Definition noHandlers : IHandlers.t Lines string :=
  {| IHandlers.next := None; IHandlers.error := None; IHandlers.complete := None |}.

Definition armed : Observer.Frame Lines string :=
  {| Observer.this := {| Observer._handlers := noHandlers;
                         Observer._isUnsubscribed := false;
                         Observer._unsubscribe := Some logTeardown |};
     Observer.env := [];
     Observer.log := [] |}.

(** A live Observer with the example handlers and a teardown attached, as
    a producer that finishes later would see it. *)
Definition listening : Observer.Frame Lines string :=
  {| Observer.this := {| Observer._handlers := exampleHandlers;
                         Observer._isUnsubscribed := false;
                         Observer._unsubscribe := Some logTeardown |};
     Observer.env := [];
     Observer.log := [] |}.


(** Calls that end a subscription: everything but [next]. *)
Definition ends_subscription {Err} (op : Op Err) : bool :=
  match op with DoNext _ => false | _ => true end.

Definition is_unsubscribe_op {Err} (op : Op Err) : bool :=
  match op with DoUnsubscribe => true | _ => false end.

(** The values pushed by the [next] calls that come before the first call
    of another kind. *)
Fixpoint pushed_while_live {Err} (ops : list (Op Err)) : list IRequestObject.t :=
  match ops with
  | DoNext value :: ops => value :: pushed_while_live ops
  | _ => []
  end.

(** A stretch of log that is empty or is one call of the [error] or of the
    [complete] handler. *)
Definition at_most_one_terminal {Err} (calls : list (Call Err)) : bool :=
  match calls with
  | [] | [OnError _] | [OnComplete] => true
  | _ => false
  end.

(* ------------------------------------------------------------------ *)
(** ** Observer: what each method does *)

Section ObserverFacts.
Context {Env Err : Type}.
Implicit Types (f : Observer.Frame Env Err) (o : Observer.t Env Err).
Implicit Types (e : Err) (value : IRequestObject.t).

Import Observer.

(** [unsubscribe] raises the flag and, when a teardown is attached, runs
    it; it never looks at the flag. *)
Lemma unsubscribe_exec f :
  exec unsubscribe f =
  match _unsubscribe (this f) with
  | Some teardown =>
      {| this := closed (this f); env := teardown (env f); log := log f ++ [Teardown] |}
  | None => {| this := closed (this f); env := env f; log := log f |}
  end.
Proof.
  destruct f as [[hs b [teardown|]] w lg]; reflexivity.
Qed.

Lemma next_exec value f :
  exec (next value) f =
  match IHandlers.next (_handlers (this f)), _isUnsubscribed (this f) with
  | Some h, false =>
      {| this := this f; env := (h value (env f)).2; log := log f ++ [OnNext value] |}
  | _, _ => f
  end.
Proof.
  destruct f as [[[[h|] he hc] [|] u] w lg]; reflexivity.
Qed.

Lemma error_exec e f :
  exec (error e) f =
  if _isUnsubscribed (this f) then f
  else exec unsubscribe
         match IHandlers.error (_handlers (this f)) with
         | Some h => {| this := this f; env := (h e (env f)).2; log := log f ++ [OnError e] |}
         | None => f
         end.
Proof.
  destruct f as [[[hn [h|] hc] [|] [teardown|]] w lg]; reflexivity.
Qed.

Lemma complete_exec f :
  exec complete f =
  if _isUnsubscribed (this f) then f
  else exec unsubscribe
         match IHandlers.complete (_handlers (this f)) with
         | Some h => {| this := this f; env := h (env f); log := log f ++ [OnComplete] |}
         | None => f
         end.
Proof.
  destruct f as [[[hn he [h|]] [|] [teardown|]] w lg]; reflexivity.
Qed.

Lemma exec_bind {S A B} (m : ST S A) (k : A → ST S B) (s : S) :
  exec (m ≫= k) s = exec (k (eval m s)) (exec m s).
Proof. unfold exec, eval, mbind, ST_bind. destruct (m s); reflexivity. Qed.

Lemma exec_ret {S A} (a : A) (s : S) : exec (mret a) s = s.
Proof. reflexivity. Qed.

Lemma do_ops_app (ops1 ops2 : list (Op Err)) f :
  exec (do_ops (ops1 ++ ops2)) f = exec (do_ops ops2) (exec (do_ops ops1) f).
Proof.
  revert f; induction ops1 as [|op ops1 IH]; intros f; simpl; [reflexivity|].
  rewrite !exec_bind. apply IH.
Qed.

Lemma times_succ {S} n (m : ST S unit) (s : S) :
  exec (times (Datatypes.S n) m) s = exec (times n m) (exec m s).
Proof. simpl. rewrite exec_bind. reflexivity. Qed.

Lemma count_app {A} (p : A → bool) (l1 l2 : list A) :
  count p (l1 ++ l2) = count p l1 + count p l2.
Proof. induction l1 as [|x l1 IH]; simpl; [reflexivity|]. rewrite IH. lia. Qed.

Lemma count_replicate_teardown n :
  count is_teardown (replicate n (@Teardown Err)) = n.
Proof. induction n as [|n IH]; simpl; [reflexivity|]. rewrite IH. reflexivity. Qed.

(** After the flag is up, [next], [error] and [complete] do nothing. *)
Lemma next_closed value f :
  _isUnsubscribed (this f) = true → exec (next value) f = f.
Proof.
  intros Hf. rewrite next_exec, Hf. destruct (IHandlers.next _); reflexivity.
Qed.

Lemma error_closed e f :
  _isUnsubscribed (this f) = true → exec (error e) f = f.
Proof. intros Hf. rewrite error_exec, Hf. reflexivity. Qed.

Lemma complete_closed f :
  _isUnsubscribed (this f) = true → exec complete f = f.
Proof. intros Hf. rewrite complete_exec, Hf. reflexivity. Qed.

Lemma unsubscribe_this f : this (exec unsubscribe f) = closed (this f).
Proof. rewrite unsubscribe_exec. destruct (_unsubscribe _); reflexivity. Qed.

Lemma error_flag e f : _isUnsubscribed (this (exec (error e) f)) = true.
Proof.
  rewrite error_exec. destruct (_isUnsubscribed (this f)) eqn:Hf; [exact Hf|].
  rewrite unsubscribe_this. reflexivity.
Qed.

Lemma complete_flag f : _isUnsubscribed (this (exec complete f)) = true.
Proof.
  rewrite complete_exec. destruct (_isUnsubscribed (this f)) eqn:Hf; [exact Hf|].
  rewrite unsubscribe_this. reflexivity.
Qed.

Lemma do_op_flag (op : Op Err) f :
  _isUnsubscribed (this f) = true →
  _isUnsubscribed (this (exec (do_op op) f)) = true.
Proof.
  intros Hf. destruct op as [value|e| |]; simpl.
  - rewrite next_closed; assumption.
  - apply error_flag.
  - apply complete_flag.
  - rewrite unsubscribe_this. reflexivity.
Qed.

Lemma do_ops_flag (ops : list (Op Err)) f :
  _isUnsubscribed (this f) = true →
  _isUnsubscribed (this (exec (do_ops ops) f)) = true.
Proof.
  revert f; induction ops as [|op ops IH]; intros f Hf; simpl; [exact Hf|].
  rewrite exec_bind. apply IH, do_op_flag, Hf.
Qed.

End ObserverFacts.

(* ------------------------------------------------------------------ *)
(** ** Observer: the protocol *)

Section ObserverProtocol.
Context {Env Err : Type}.
Implicit Types (f : Observer.Frame Env Err) (e : Err) (value : IRequestObject.t).

Import Observer.

(** C10.  [next(value)] leaves the Observer as it found it: handlers,
    [isUnsubscribed] and teardown are unchanged.  With the flag up the call
    changes nothing at all; with the flag down all that happens is the
    call of the [next] handler, when there is one, of which only the
    effect on the world is kept: what the handler returns is used
    nowhere. *)
Theorem next_keeps_observer value f :
  let f' := exec (next value) f in
  this f' = this f
  ∧ f' = (if _isUnsubscribed (this f) then f
          else {| this := this f;
                  env := next_effect (IHandlers.next (_handlers (this f))) value (env f);
                  log := log f ++ match IHandlers.next (_handlers (this f)) with
                                  | Some _ => [OnNext value]
                                  | None => []
                                  end |}).
Proof.
  simpl. rewrite next_exec.
  destruct f as [[[[h|] he hc] [|] u] w lg]; simpl; rewrite ?app_nil_r; auto.
Qed.

(** C8.  Along any sequence of calls to [next], [error], [complete] and
    [unsubscribe], once [isUnsubscribed] is true it is true after every
    further call. *)
Theorem isUnsubscribed_never_reverts (before after : list (Op Err)) f :
  _isUnsubscribed (this (exec (do_ops before) f)) = true →
  _isUnsubscribed (this (exec (do_ops (before ++ after)) f)) = true.
Proof.
  intros Hup. rewrite do_ops_app. apply do_ops_flag, Hup.
Qed.

(** C5.  After [complete()], or after [error(e)], and whatever calls
    follow, [next(value)] changes nothing: the world and the log are what
    they were, so the [next] handler was not invoked. *)
Theorem next_after_terminal_is_inert value e (ops : list (Op Err)) f :
  (let f1 := exec (complete;; do_ops ops) f in exec (next value) f1 = f1)
  ∧ (let f2 := exec (error e;; do_ops ops) f in exec (next value) f2 = f2).
Proof.
  simpl; split; rewrite exec_bind; apply next_closed, do_ops_flag.
  - apply complete_flag.
  - apply error_flag.
Qed.

(** C7.  Of two [complete()] calls in a row the second changes nothing,
    and the two together invoke the [complete] handler at most once and
    the teardown at most once. *)
Theorem complete_twice f :
  exec (times 2 complete) f = exec complete f
  ∧ ∃ calls, log (exec (times 2 complete) f) = log f ++ calls
             ∧ count is_complete calls ≤ 1
             ∧ count is_teardown calls ≤ 1.
Proof.
  rewrite !times_succ. simpl times. rewrite exec_ret.
  rewrite (complete_closed (exec complete f)) by apply complete_flag.
  split; [reflexivity|].
  rewrite complete_exec.
  destruct f as [[[hn he [h|]] [|] [teardown|]] w lg]; simpl;
    rewrite ?unsubscribe_exec; simpl; rewrite <- ?app_assoc; simpl;
    first [ by exists [] ; rewrite ?app_nil_r; simpl; auto
          | eexists; split; [reflexivity|simpl; lia] ].
Qed.

(** C6.  On an Observer that is not yet unsubscribed and has a teardown
    attached, one [error(e)] raises [isUnsubscribed] and runs the teardown
    exactly once, after the [error] handler if there is one, and whether
    or not there is one. *)
Theorem error_terminates e (teardown : TTeardown Env) f :
  _isUnsubscribed (this f) = false →
  _unsubscribe (this f) = Some teardown →
  let f' := exec (error e) f in
  _isUnsubscribed (this f') = true
  ∧ this f' = closed (this f)
  ∧ log f' = log f ++ match IHandlers.error (_handlers (this f)) with
                      | Some _ => [OnError e]
                      | None => []
                      end ++ [Teardown]
  ∧ env f' = teardown (error_effect (IHandlers.error (_handlers (this f))) e (env f))
  ∧ count is_teardown (log f') = count is_teardown (log f) + 1.
Proof.
  intros Hlive Htd. cbv zeta. rewrite error_exec, Hlive, unsubscribe_exec.
  destruct (IHandlers.error (_handlers (this f))) as [h|]; simpl;
    rewrite Htd; simpl; rewrite <- ?app_assoc, !count_app; simpl;
    repeat split; try reflexivity; lia.
Qed.

(** C1, as the code has it.  On an Observer with a teardown attached,
    [n] calls of [unsubscribe()] in a row ([n ≥ 1]) leave the fields of the
    Observer as the first call left them ([isUnsubscribed] true, handlers
    and teardown unchanged), and each of the [n] calls runs the teardown:
    it runs [n] times. *)
Theorem unsubscribe_repeated (teardown : TTeardown Env) n f :
  _unsubscribe (this f) = Some teardown →
  let f' := exec (times (S n) unsubscribe) f in
  this f' = this (exec unsubscribe f)
  ∧ _isUnsubscribed (this f') = true
  ∧ log f' = log f ++ replicate (S n) Teardown
  ∧ env f' = Nat.iter (S n) teardown (env f)
  ∧ count is_teardown (log f') = count is_teardown (log f) + S n.
Proof.
  intros Htd; cbv zeta.
  assert (Hn : ∀ n f, _unsubscribe (this f) = Some teardown →
    exec (times n unsubscribe) f =
    match n with
    | 0 => f
    | S _ => {| this := closed (this f);
                env := Nat.iter n teardown (env f);
                log := log f ++ replicate n Teardown |}
    end).
  { clear. induction n as [|n IH]; intros f Htd; [reflexivity|].
    rewrite times_succ, IH by (rewrite unsubscribe_this; exact Htd).
    rewrite unsubscribe_exec, Htd. destruct n as [|n]; [reflexivity|].
    cbn [this env log closed _handlers _unsubscribe]. f_equal.
    - change (teardown (env f)) with (Nat.iter 1 teardown (env f)).
      rewrite <- Nat.iter_add. f_equal. lia.
    - rewrite <- app_assoc. reflexivity. }
  rewrite Hn by exact Htd. rewrite unsubscribe_this. cbn [this env log].
  rewrite count_app, count_replicate_teardown. auto.
Qed.

End ObserverProtocol.

(** C1, as stated, fails: on an Observer whose teardown prints a line, the
    second [unsubscribe()] runs the teardown again. *)
Lemma unsubscribe_twice_reruns_teardown :
  exec (times 2 Observer.unsubscribe) armed ≠ exec Observer.unsubscribe armed
  ∧ count is_teardown (Observer.log (exec Observer.unsubscribe armed)) = 1
  ∧ count is_teardown (Observer.log (exec (times 2 Observer.unsubscribe) armed)) = 2
  ∧ Observer.env (exec (times 2 Observer.unsubscribe) armed)
    = ["unsubscribed"; "unsubscribed"].
Proof.
  split; [|repeat split; reflexivity].
  intros Heq. apply (f_equal Observer.env) in Heq. discriminate Heq.
Qed.

Lemma unsubscribe_repeated_witness :
  let f' := exec (times 3 Observer.unsubscribe) armed in
  Observer._unsubscribe (Observer.this armed) = Some logTeardown
  ∧ Observer.this f' = Observer.this (exec Observer.unsubscribe armed)
  ∧ Observer._isUnsubscribed (Observer.this f') = true
  ∧ Observer.log f' = Observer.log armed ++ replicate 3 Teardown
  ∧ Observer.env f' = Nat.iter 3 logTeardown (Observer.env armed)
  ∧ count is_teardown (Observer.log f')
    = count is_teardown (Observer.log armed) + 3.
Proof.
  split; [reflexivity|].
  apply (unsubscribe_repeated logTeardown 2 armed). reflexivity.
Defined.

Lemma error_terminates_witness :
  let f' := exec (Observer.error "boom") armed in
  Observer._isUnsubscribed (Observer.this armed) = false
  ∧ Observer._unsubscribe (Observer.this armed) = Some logTeardown
  ∧ Observer._isUnsubscribed (Observer.this f') = true
  ∧ Observer.this f' = closed (Observer.this armed)
  ∧ Observer.log f' = [Teardown]
  ∧ Observer.env f' = ["unsubscribed"]
  ∧ count is_teardown (Observer.log f') = 1.
Proof.
  split; [reflexivity|]. split; [reflexivity|].
  apply (error_terminates "boom" logTeardown armed); reflexivity.
Defined.

Lemma isUnsubscribed_never_reverts_witness :
  Observer._isUnsubscribed (Observer.this (exec (do_ops [DoComplete]) armed)) = true
  ∧ Observer._isUnsubscribed
      (Observer.this
         (exec (do_ops ([DoComplete] ++ [DoNext ping; DoError "late"; DoUnsubscribe]))
               armed)) = true.
Proof.
  split; [reflexivity|].
  apply (isUnsubscribed_never_reverts [DoComplete] _ armed). reflexivity.
Defined.

(* ------------------------------------------------------------------ *)
(** ** Observers in the heap *)

Section HeapFacts.
Context {Env Err : Type}.
Implicit Types (o : Observer.t Env Err) (pre : list (Observer.t Env Err)).
Implicit Types (w : Env) (tr : list (loc * Call Err)).

Import Observer.

Lemma lookup_last pre o : (pre ++ [o]) !! length pre = Some o.
Proof. induction pre as [|x pre IH]; [reflexivity|exact IH]. Qed.

Lemma insert_last pre o o' : <[length pre := o']> (pre ++ [o]) = pre ++ [o'].
Proof. induction pre as [|x pre IH]; [reflexivity|]. simpl. by rewrite IH. Qed.

(** A method call on the youngest object of the heap. *)
Lemma on_last {A} (m : ST (Frame Env Err) A) pre o w tr :
  on (length pre) m {| heap := pre ++ [o]; world := w; trace := tr |} =
  (Some (eval m (mkFrame o w [])),
   {| heap := pre ++ [this (exec m (mkFrame o w []))];
      world := env (exec m (mkFrame o w []));
      trace := tr ++ map (pair (length pre)) (log (exec m (mkFrame o w []))) |}).
Proof.
  unfold on, exec, eval; simpl. rewrite lookup_last.
  destruct (m _) as [a f]; simpl. by rewrite insert_last.
Qed.

Lemma exec_on_last {A} (m : ST (Frame Env Err) A) pre o w tr :
  exec (on (length pre) m) {| heap := pre ++ [o]; world := w; trace := tr |} =
  {| heap := pre ++ [this (exec m (mkFrame o w []))];
     world := env (exec m (mkFrame o w []));
     trace := tr ++ map (pair (length pre)) (log (exec m (mkFrame o w []))) |}.
Proof. unfold exec at 1. by rewrite on_last. Qed.

Lemma eval_on_last {A} (m : ST (Frame Env Err) A) pre o w tr :
  eval (on (length pre) m) {| heap := pre ++ [o]; world := w; trace := tr |} =
  Some (eval m (mkFrame o w [])).
Proof. unfold eval at 1. by rewrite on_last. Qed.

(** With no teardown attached, a call from outside runs no teardown and
    attaches none; it leaves the handlers alone and only adds to the log. *)
Lemma do_op_detached (op : Op Err) (f : Frame Env Err) :
  _unsubscribe (this f) = None →
  _unsubscribe (this (exec (do_op op) f)) = None
  ∧ _handlers (this (exec (do_op op) f)) = _handlers (this f)
  ∧ ∃ calls, log (exec (do_op op) f) = log f ++ calls
             ∧ count is_teardown calls = 0.
Proof.
  destruct f as [[[hn he hc] b u] w lg]; simpl; intros ->.
  destruct op as [value|e| |]; simpl;
    rewrite ?next_exec, ?error_exec, ?complete_exec, ?unsubscribe_exec; simpl.
  - destruct hn, b; simpl; repeat split;
      first [ by exists []; rewrite app_nil_r | by eexists ].
  - destruct he, b; simpl; rewrite ?unsubscribe_exec; simpl; repeat split;
      first [ by exists []; rewrite app_nil_r | by eexists ].
  - destruct hc, b; simpl; rewrite ?unsubscribe_exec; simpl; repeat split;
      first [ by exists []; rewrite app_nil_r | by eexists ].
  - repeat split. by exists []; rewrite app_nil_r.
Qed.

(** The state after a producer ran against the youngest object, when that
    object had no teardown attached: the object is still the youngest,
    still has none, no teardown ran. *)
Lemma run_detached (p : TSubscribeFunc Env Err) pre o w tr :
  _unsubscribe o = None →
  ∃ o' calls,
    heap (exec (run p (length pre)) {| heap := pre ++ [o]; world := w; trace := tr |})
      = pre ++ [o']
    ∧ _unsubscribe o' = None
    ∧ _handlers o' = _handlers o
    ∧ trace (exec (run p (length pre)) {| heap := pre ++ [o]; world := w; trace := tr |})
      = tr ++ map (pair (length pre)) calls
    ∧ count is_teardown calls = 0.
Proof.
  revert o w tr.
  assert (Hstep : ∀ (op : Op Err) (k : TSubscribeFunc Env Err),
    (∀ o w tr, _unsubscribe o = None →
       ∃ o' calls,
         heap (exec (run k (length pre)) {| heap := pre ++ [o]; world := w; trace := tr |})
           = pre ++ [o']
         ∧ _unsubscribe o' = None
         ∧ _handlers o' = _handlers o
         ∧ trace (exec (run k (length pre)) {| heap := pre ++ [o]; world := w; trace := tr |})
           = tr ++ map (pair (length pre)) calls
         ∧ count is_teardown calls = 0) →
    ∀ o w tr, _unsubscribe o = None →
       ∃ o' calls,
         heap (exec (on (length pre) (do_op op);; run k (length pre))
                 {| heap := pre ++ [o]; world := w; trace := tr |})
           = pre ++ [o']
         ∧ _unsubscribe o' = None
         ∧ _handlers o' = _handlers o
         ∧ trace (exec (on (length pre) (do_op op);; run k (length pre))
                 {| heap := pre ++ [o]; world := w; trace := tr |})
           = tr ++ map (pair (length pre)) calls
         ∧ count is_teardown calls = 0).
  { intros op k IH o w tr Ho.
    rewrite exec_bind, exec_on_last.
    destruct (do_op_detached op (mkFrame o w []) Ho) as (Hu & Hh & calls1 & Hlog & Hc1).
    destruct (IH _ (env (exec (do_op op) (mkFrame o w [])))
                 (tr ++ map (pair (length pre)) (log (exec (do_op op) (mkFrame o w [])))) Hu)
      as (o' & calls2 & Hheap & Hu' & Hh' & Htr & Hc2).
    exists o', (calls1 ++ calls2). rewrite Hheap, Htr, Hlog. simpl.
    rewrite map_app, count_app, Hc1, Hc2, <- app_assoc, Hh', Hh. auto. }
  induction p as [teardown|value k IH|e k IH|k IH|k IH|k IH|g k IH]; intros o w tr Ho.
  - exists o, []. simpl. rewrite app_nil_r. auto.
  - apply (Hstep (DoNext value) k IH), Ho.
  - apply (Hstep (DoError e) k IH), Ho.
  - apply (Hstep DoComplete k IH), Ho.
  - apply (Hstep DoUnsubscribe k IH), Ho.
  - simpl run. rewrite exec_bind, exec_on_last, eval_on_last.
    simpl. rewrite app_nil_r. apply IH, Ho.
  - simpl run. rewrite exec_bind. apply IH, Ho.
Qed.

End HeapFacts.

(* ------------------------------------------------------------------ *)
(** ** Observable.from and Observable.subscribe *)

Section FromFacts.
Context {Env Err : Type} `{Console Env}.
Implicit Types (o : Observer.t Env Err) (pre : list (Observer.t Env Err)).
Implicit Types (w : Env) (tr : list (loc * Call Err)) (hs : IHandlers.t Env Err).

Import Observer.

Lemma bind_on_last {A B} (m : ST (Frame Env Err) A)
    (k : option A → ST (State Env Err) B) pre o w tr :
  (on (length pre) m ≫= k) {| heap := pre ++ [o]; world := w; trace := tr |} =
  k (Some (eval m (mkFrame o w [])))
    {| heap := pre ++ [this (exec m (mkFrame o w []))];
       world := env (exec m (mkFrame o w []));
       trace := tr ++ map (pair (length pre)) (log (exec m (mkFrame o w []))) |}.
Proof. unfold mbind, ST_bind. by rewrite on_last. Qed.

(** The [forEach] loop of [from] on a live Observer: every value goes to
    the [next] handler, in order; the Observer itself is not changed. *)
Lemma run_forEach_next (values : list IRequestObject.t)
    (k : TSubscribeFunc Env Err) pre o w tr :
  _isUnsubscribed o = false →
  run (forEach values (λ value k, CallNext value k) k) (length pre)
      {| heap := pre ++ [o]; world := w; trace := tr |} =
  run k (length pre)
      {| heap := pre ++ [o];
         world := fold_left (λ w value, next_effect (IHandlers.next (_handlers o)) value w)
                            values w;
         trace := tr ++ map (pair (length pre))
                            match IHandlers.next (_handlers o) with
                            | Some _ => map OnNext values
                            | None => []
                            end |}.
Proof.
  intros Hlive. revert w tr.
  induction values as [|value values IH]; intros w tr.
  - simpl. destruct (IHandlers.next _); simpl; by rewrite app_nil_r.
  - simpl forEach. simpl run. rewrite bind_on_last, next_exec. simpl.
    rewrite Hlive. destruct o as [[[h|] he hc] b u]; simpl in *.
    + rewrite IH. simpl. by rewrite <- app_assoc.
    + rewrite IH. simpl. by rewrite !app_nil_r.
Qed.

(** What [subscribe] does on an Observable made by [from]. *)
Lemma subscribe_from (values : list IRequestObject.t) hs (σ : State Env Err) :
  Observable.subscribe (Observable.from values) hs σ =
  (Subscription.mk (length (heap σ)),
   {| heap := heap σ ++ [ {| _handlers := hs;
                             _isUnsubscribed := true;
                             _unsubscribe := Some (console_log "unsubscribed") |} ];
      world := delivered hs values (world σ);
      trace := trace σ ++ map (pair (length (heap σ))) (deliveries hs values) |}).
Proof.
  unfold Observable.subscribe, Observable.from. simpl.
  unfold mbind at 1, ST_bind at 1, alloc at 1.
  unfold mbind at 1, ST_bind at 1.
  rewrite run_forEach_next by reflexivity.
  simpl run. rewrite bind_on_last. rewrite complete_exec. simpl.
  unfold deliveries, delivered.
  destruct hs as [hn he [hc|]]; simpl; rewrite bind_on_last; simpl;
    rewrite ?app_nil_r, ?map_app, <- ?app_assoc; reflexivity.
Qed.

Lemma exec_subscribe_from (values : list IRequestObject.t) hs (σ : State Env Err) :
  exec (Observable.subscribe (Observable.from values) hs) σ =
  {| heap := heap σ ++ [ {| _handlers := hs;
                            _isUnsubscribed := true;
                            _unsubscribe := Some (console_log "unsubscribed") |} ];
     world := delivered hs values (world σ);
     trace := trace σ ++ map (pair (length (heap σ))) (deliveries hs values) |}.
Proof. unfold exec. by rewrite subscribe_from. Qed.

(** [subscribe] step by step: create the Observer, run the producer
    against it, attach what the producer returned, hand out the handle. *)
Lemma exec_subscribe (source : Observable.t Env Err) hs (σ : State Env Err) :
  exec (Observable.subscribe source hs) σ =
  exec (on (length (heap σ))
           (set_unsubscribe
              (Some (eval (run (Observable._subscribe source) (length (heap σ)))
                          (exec (alloc (new hs)) σ)))))
       (exec (run (Observable._subscribe source) (length (heap σ)))
             (exec (alloc (new hs)) σ)).
Proof.
  unfold Observable.subscribe, exec, eval, mbind, ST_bind, mret, ST_ret; simpl.
  destruct (run _ _ _) as [teardown σ']; simpl.
  destruct (on _ _ σ'); reflexivity.
Qed.

Lemma eval_subscribe (source : Observable.t Env Err) hs (σ : State Env Err) :
  eval (Observable.subscribe source hs) σ = Subscription.mk (length (heap σ)).
Proof.
  unfold Observable.subscribe, exec, eval, mbind, ST_bind, mret, ST_ret; simpl.
  destruct (run _ _ _) as [teardown σ']; simpl.
  destruct (on _ _ σ'); reflexivity.
Qed.

(** [unsubscribe()] on the handle of the youngest Observer. *)
Lemma handle_unsubscribe_last pre o w tr :
  exec (Subscription.unsubscribe (Subscription.mk (length pre)))
       {| heap := pre ++ [o]; world := w; trace := tr |} =
  {| heap := pre ++ [closed o];
     world := match _unsubscribe o with Some teardown => teardown w | None => w end;
     trace := tr ++ match _unsubscribe o with
                    | Some _ => [(length pre, Teardown)]
                    | None => []
                    end |}.
Proof.
  unfold Subscription.unsubscribe. simpl. rewrite exec_bind, exec_ret, exec_on_last.
  rewrite unsubscribe_exec. simpl.
  destruct (_unsubscribe o); simpl; by rewrite ?app_nil_r.
Qed.

End FromFacts.

(* ------------------------------------------------------------------ *)
(** ** Subscriptions *)

Section Subscriptions.
Context {Env Err : Type} `{Console Env}.
Implicit Types (σ : State Env Err) (hs : IHandlers.t Env Err).

Import Observer.

Lemma calls_since_app σ σ' l (calls : list (Call Err)) :
  trace σ' = trace σ ++ map (pair l) calls → calls_since σ σ' = calls.
Proof.
  unfold calls_since. intros ->. rewrite drop_app_length.
  induction calls as [|c calls IH]; simpl; [reflexivity|]. by rewrite IH.
Qed.

Lemma received_deliveries hs (values : list IRequestObject.t) :
  received (deliveries hs values) =
  match IHandlers.next hs with Some _ => values | None => [] end.
Proof.
  unfold deliveries.
  assert (Hc : received (match IHandlers.complete hs with
                         | Some _ => [@OnComplete Err]
                         | None => []
                         end) = []) by (destruct (IHandlers.complete hs); reflexivity).
  destruct (IHandlers.next hs); simpl; [|exact Hc].
  induction values as [|value values IH]; simpl; [exact Hc|]. by rewrite IH.
Qed.

(** C4.  Subscribing to [from([a, b])] with a [next] handler [collect]
    and a [complete] handler [markDone] calls [collect] with [a], then
    [collect] with [b], then [markDone] once, and nothing else; when
    [subscribe] returns, the Observer's [isUnsubscribed] is true. *)
Theorem from_pair_round_trip (a b : IRequestObject.t)
    (collect : TNextFunc Env) (markDone : TCompleteFunc Env)
    (onError : option (TErrorFunc Env Err)) σ :
  let hs := {| IHandlers.next := Some collect;
               IHandlers.error := onError;
               IHandlers.complete := Some markDone |} in
  let s := eval (Observable.subscribe (Observable.from [a; b]) hs) σ in
  let σ' := exec (Observable.subscribe (Observable.from [a; b]) hs) σ in
  calls_since σ σ' = [OnNext a; OnNext b; OnComplete]
  ∧ trace σ' = trace σ ++ map (pair (Subscription.observer s))
                              [OnNext a; OnNext b; OnComplete]
  ∧ world σ' = markDone (collect b (collect a (world σ)).2).2
  ∧ ∃ o, heap σ' !! Subscription.observer s = Some o
         ∧ _isUnsubscribed o = true.
Proof.
  cbv zeta. unfold exec, eval. rewrite subscribe_from. cbn [fst snd].
  split; [|split; [|split]].
  - eapply calls_since_app. reflexivity.
  - reflexivity.
  - reflexivity.
  - eexists. split; [apply lookup_last|reflexivity].
Qed.

(** C9.  Two [subscribe] calls on one Observable made by [from(values)]:
    each creates an Observer of its own, fresh and different from the
    other; each tells its own handlers the whole of [values], in order,
    and then completion; the second leaves the first one's Observer as it
    was.  What a subscription delivers depends on [values] and on its own
    handlers only. *)
Theorem subscriptions_are_independent (values : list IRequestObject.t) hs1 hs2 σ :
  let source := Observable.from values in
  let s1 := eval (Observable.subscribe source hs1) σ in
  let σ1 := exec (Observable.subscribe source hs1) σ in
  let s2 := eval (Observable.subscribe source hs2) σ1 in
  let σ2 := exec (Observable.subscribe source hs2) σ1 in
  Subscription.observer s1 ≠ Subscription.observer s2
  ∧ heap σ !! Subscription.observer s1 = None
  ∧ heap σ1 !! Subscription.observer s2 = None
  ∧ trace σ1 = trace σ ++ map (pair (Subscription.observer s1)) (deliveries hs1 values)
  ∧ trace σ2 = trace σ1 ++ map (pair (Subscription.observer s2)) (deliveries hs2 values)
  ∧ received (calls_since σ σ1)
    = match IHandlers.next hs1 with Some _ => values | None => [] end
  ∧ received (calls_since σ1 σ2)
    = match IHandlers.next hs2 with Some _ => values | None => [] end
  ∧ world σ1 = delivered hs1 values (world σ)
  ∧ world σ2 = delivered hs2 values (world σ1)
  ∧ (∃ o1, heap σ1 = heap σ ++ [o1] ∧ _handlers o1 = hs1)
  ∧ (∃ o2, heap σ2 = heap σ1 ++ [o2] ∧ _handlers o2 = hs2)
  ∧ heap σ2 !! Subscription.observer s1 = heap σ1 !! Subscription.observer s1.
Proof.
  cbv zeta. unfold exec, eval. rewrite !subscribe_from. cbn [fst snd].
  cbn [heap world trace Subscription.observer].
  repeat match goal with |- _ ∧ _ => split end.
  - rewrite length_app. simpl. lia.
  - apply lookup_ge_None_2. lia.
  - apply lookup_ge_None_2. lia.
  - reflexivity.
  - reflexivity.
  - erewrite calls_since_app by reflexivity. apply received_deliveries.
  - erewrite calls_since_app by reflexivity. apply received_deliveries.
  - reflexivity.
  - reflexivity.
  - eexists; split; reflexivity.
  - eexists; split; reflexivity.
  - rewrite lookup_app_l; [reflexivity|]. rewrite length_app. simpl. lia.
Qed.

(** C3.  [subscribe] attaches the teardown the producer returned only
    after the producer has returned.  For every producer: while
    [subscribe] runs no teardown runs, and when the producer returns the
    Observer still has none; when [subscribe] returns the teardown is
    attached; and the first [unsubscribe()] on the returned handle runs
    it, once.  For the producer of [from(values)] the subscription has
    already terminated when [subscribe] returns ([isUnsubscribed] is
    true), and it is still that first [unsubscribe()] which runs the
    teardown for the first time. *)
Theorem teardown_waits_for_the_handle (p : TSubscribeFunc Env Err)
    (values : list IRequestObject.t) hs σ :
  let l := length (heap σ) in
  let teardown := eval (run p l) (exec (alloc (Observer.new hs)) σ) in
  let σp := exec (run p l) (exec (alloc (Observer.new hs)) σ) in
  let s := eval (Observable.subscribe (Observable.mk p) hs) σ in
  let σ1 := exec (Observable.subscribe (Observable.mk p) hs) σ in
  let σ2 := exec (Subscription.unsubscribe s) σ1 in
  let sf := eval (Observable.subscribe (Observable.from values) hs) σ in
  let σf1 := exec (Observable.subscribe (Observable.from values) hs) σ in
  let σf2 := exec (Subscription.unsubscribe sf) σf1 in
  (Subscription.observer s = l
   ∧ (∃ o, heap σp = heap σ ++ [o] ∧ _unsubscribe o = None)
   ∧ (∃ calls, trace σ1 = trace σ ++ map (pair l) calls
               ∧ count is_teardown calls = 0)
   ∧ (∃ o, heap σ1 = heap σ ++ [o]
           ∧ _handlers o = hs
           ∧ _unsubscribe o = Some teardown)
   ∧ trace σ2 = trace σ1 ++ [(l, Teardown)]
   ∧ world σ2 = teardown (world σ1))
  ∧ ((∃ o, heap σf1 !! Subscription.observer sf = Some o
           ∧ _isUnsubscribed o = true
           ∧ _unsubscribe o = Some (console_log "unsubscribed"))
     ∧ count is_teardown (calls_since σ σf1) = 0
     ∧ calls_since σf1 σf2 = [Teardown]
     ∧ world σf2 = console_log "unsubscribed" (world σf1)).
Proof.
  cbv zeta. split.
  - rewrite eval_subscribe, exec_subscribe. cbn [Observable._subscribe].
    replace (exec (alloc (new hs)) σ)
      with {| heap := heap σ ++ [new hs]; world := world σ; trace := trace σ |}
      by reflexivity.
    destruct (run_detached p (heap σ) (new hs) (world σ) (trace σ) eq_refl)
      as (o' & calls & Hheap & Hu & Hh & Htr & Hc).
    set (teardown := eval (run p (length (heap σ))) _).
    destruct (exec (run p (length (heap σ))) _) as [h w tr].
    cbn [heap trace] in Hheap, Htr. subst h tr.
    rewrite exec_on_last, handle_unsubscribe_last. simpl.
    rewrite app_nil_r.
    repeat match goal with |- _ ∧ _ => split end; try reflexivity.
    + exists o'. auto.
    + exists calls. auto.
    + eexists. split; [reflexivity|]. simpl. auto.
  - rewrite eval_subscribe, exec_subscribe_from, handle_unsubscribe_last.
    cbn [_unsubscribe Subscription.observer].
    repeat match goal with |- _ ∧ _ => split end.
    + eexists. split; [apply lookup_last|]. auto.
    + erewrite calls_since_app by reflexivity.
      unfold deliveries. rewrite count_app.
      destruct (IHandlers.next hs), (IHandlers.complete hs); simpl;
        rewrite ?Nat.add_0_r; try reflexivity;
        induction values; simpl; auto.
    + unfold calls_since. cbn [trace]. by rewrite drop_app_length.
    + reflexivity.
Qed.

(** C2, as the code has it.  The example: [requestsMock] is subscribed
    with the three example handlers.  While [subscribe] runs, the [next]
    handler is invoked exactly twice (with the POST request, then with the
    GET request), the [error] handler never, the [complete] handler
    exactly once, and no teardown runs.  The [unsubscribe()] that follows
    invokes no handler and leaves the Observer as it was, but it does run
    the teardown, exactly once: this is where "unsubscribed" is printed. *)
Theorem example_run (now : Date) σ :
  let s := eval (subscription now) σ in
  let σ1 := exec (subscription now) σ in
  let σ2 := exec (Subscription.unsubscribe s) σ1 in
  calls_since σ σ1 = map OnNext (requestsMock now) ++ [OnComplete]
  ∧ trace σ1 = trace σ ++ map (pair (Subscription.observer s)) (calls_since σ σ1)
  ∧ count is_next (calls_since σ σ1) = 2
  ∧ count is_error (calls_since σ σ1) = 0
  ∧ count is_complete (calls_since σ σ1) = 1
  ∧ count is_teardown (calls_since σ σ1) = 0
  ∧ world σ1 = console_log "complete" (world σ)
  ∧ calls_since σ1 σ2 = [Teardown]
  ∧ trace σ2 = trace σ1 ++ [(Subscription.observer s, Teardown)]
  ∧ world σ2 = console_log "unsubscribed" (world σ1)
  ∧ heap σ2 = heap σ1.
Proof.
  cbv zeta. unfold subscription, requests.
  rewrite eval_subscribe, exec_subscribe_from, handle_unsubscribe_last.
  cbn [_unsubscribe Subscription.observer].
  assert (Hcalls : calls_since σ
    {| heap := heap σ ++ [ {| _handlers := (@exampleHandlers Env Err _);
                              _isUnsubscribed := true;
                              _unsubscribe := Some (console_log "unsubscribed") |} ];
       world := delivered (@exampleHandlers Env Err _) (requestsMock now) (world σ);
       trace := trace σ ++ map (pair (length (heap σ)))
                               (deliveries (@exampleHandlers Env Err _) (requestsMock now)) |}
    = map OnNext (requestsMock now) ++ [OnComplete]).
  { eapply calls_since_app. reflexivity. }
  rewrite !Hcalls.
  repeat match goal with |- _ ∧ _ => split end; try reflexivity.
  unfold calls_since. cbn [trace]. by rewrite drop_app_length.
Qed.

End Subscriptions.

(** C2, as stated, fails: in the example the [unsubscribe()] after the
    subscription has completed is not without effect.  It runs the
    teardown, which prints a second line. *)
Lemma example_unsubscribe_runs_teardown :
  let start : State Lines string := initial [] in
  let s := eval (subscription 0%Z) start in
  let σ1 := exec (subscription 0%Z) start in
  let σ2 := exec (Subscription.unsubscribe s) σ1 in
  σ2 ≠ σ1
  ∧ world σ1 = ["complete"]
  ∧ world σ2 = ["complete"; "unsubscribed"]
  ∧ count is_teardown (calls_since σ1 σ2) = 1.
Proof.
  cbv zeta. split; [|repeat split; reflexivity].
  intros Heq. apply (f_equal world) in Heq. discriminate Heq.
Qed.

(* ------------------------------------------------------------------ *)
(** ** Observer: whole call sequences *)

Section ObserverSequences.
Context {Env Err : Type}.
Implicit Types (f : Observer.Frame Env Err) (o : Observer.t Env Err).
Implicit Types (ops : list (Op Err)).

Import Observer.

Lemma closed_live o : _isUnsubscribed o = true → closed o = o.
Proof. destruct o as [hs b u]; simpl; intros ->; reflexivity. Qed.

Lemma iter_shift {A} (g : A → A) n (x : A) : Nat.iter n g (g x) = g (Nat.iter n g x).
Proof. induction n as [|n IH]; simpl; [reflexivity|]. by rewrite IH. Qed.

Lemma count_map_next (p : Call Err → bool) (values : list IRequestObject.t) :
  (∀ value, p (OnNext value) = false) → count p (map OnNext values) = 0.
Proof.
  intros Hp. induction values as [|value values IH]; simpl; [reflexivity|].
  by rewrite Hp, IH.
Qed.

Lemma count_replicate_other (p : Call Err → bool) n :
  p Teardown = false → count p (replicate n Teardown) = 0.
Proof. intros Hp. induction n as [|n IH]; simpl; [reflexivity|]. by rewrite Hp, IH. Qed.

Lemma count_terminal (calls : list (Call Err)) :
  at_most_one_terminal calls = true →
  count is_next calls = 0
  ∧ count is_teardown calls = 0
  ∧ count is_error calls + count is_complete calls ≤ 1.
Proof.
  destruct calls as [|[value|e| |] [|c calls]]; simpl; try discriminate; lia.
Qed.

(** With the flag up, a sequence of calls does one thing only: each
    [unsubscribe] in it runs the teardown, if one is attached. *)
Lemma do_ops_closed ops f :
  _isUnsubscribed (this f) = true →
  exec (do_ops ops) f =
  match _unsubscribe (this f) with
  | Some teardown =>
      {| this := this f;
         env := Nat.iter (count is_unsubscribe_op ops) teardown (env f);
         log := log f ++ replicate (count is_unsubscribe_op ops) Teardown |}
  | None => f
  end.
Proof.
  revert f. induction ops as [|op ops IH]; intros f Hup.
  - simpl. rewrite exec_ret, app_nil_r. by destruct f, (_unsubscribe _).
  - simpl do_ops. rewrite exec_bind.
    destruct op as [value|e| |]; simpl do_op; simpl count.
    + rewrite next_closed by exact Hup. by apply IH.
    + rewrite error_closed by exact Hup. by apply IH.
    + rewrite complete_closed by exact Hup. by apply IH.
    + rewrite IH by (by rewrite unsubscribe_this).
      rewrite unsubscribe_this, unsubscribe_exec, (closed_live _ Hup).
      destruct (_unsubscribe (this f)) as [teardown|] eqn:Htd; simpl.
      * rewrite iter_shift, <- app_assoc. reflexivity.
      * by destruct f.
Qed.

(** The handlers and the teardown of an Observer after one call. *)
Lemma do_op_this (op : Op Err) f :
  this (exec (do_op op) f) =
  if ends_subscription op then closed (this f) else this f.
Proof.
  destruct op as [value|e| |]; simpl.
  - rewrite next_exec.
    by destruct (IHandlers.next _), (_isUnsubscribed (this f)).
  - rewrite error_exec. destruct (_isUnsubscribed (this f)) eqn:Hf.
    + by rewrite closed_live.
    + rewrite unsubscribe_this. by destruct (IHandlers.error _).
  - rewrite complete_exec. destruct (_isUnsubscribed (this f)) eqn:Hf.
    + by rewrite closed_live.
    + rewrite unsubscribe_this. by destruct (IHandlers.complete _).
  - apply unsubscribe_this.
Qed.

Lemma do_ops_this ops f :
  this (exec (do_ops ops) f) =
  if existsb ends_subscription ops then closed (this f) else this f.
Proof.
  revert f. induction ops as [|op ops IH]; intros f; [reflexivity|].
  simpl do_ops. rewrite exec_bind, IH, do_op_this. simpl.
  by destruct (ends_subscription op), (existsb ends_subscription ops).
Qed.

(** The calls a live Observer makes over a sequence: the values pushed
    before the first call that ends the subscription, then at most one
    terminal notification, then teardowns only. *)
Lemma do_ops_live ops f :
  _isUnsubscribed (this f) = false →
  ∃ terminal n,
    log (exec (do_ops ops) f) =
      log f
      ++ map OnNext match IHandlers.next (_handlers (this f)) with
                    | Some _ => pushed_while_live ops
                    | None => []
                    end
      ++ terminal ++ replicate n Teardown
    ∧ at_most_one_terminal terminal = true.
Proof.
  revert f. induction ops as [|op ops IH]; intros f Hlive.
  - exists [], 0. simpl. rewrite exec_ret.
    destruct (IHandlers.next _); simpl; by rewrite !app_nil_r.
  - simpl do_ops. rewrite exec_bind.
    assert (Hend : ∀ f1 : Frame Env Err, _isUnsubscribed (this f1) = true →
      ∃ n, log (exec (do_ops ops) f1) = log f1 ++ replicate n Teardown).
    { intros f1 Hup. rewrite do_ops_closed by exact Hup.
      destruct (_unsubscribe (this f1)); [by eexists|].
      exists 0. simpl. by rewrite app_nil_r. }
    destruct op as [value|e| |]; simpl do_op; simpl pushed_while_live.
    + rewrite next_exec, Hlive.
      destruct (IHandlers.next (_handlers (this f))) as [h|] eqn:Hh.
      * destruct (IH {| this := this f; env := (h value (env f)).2;
                        log := log f ++ [OnNext value] |} Hlive)
          as (terminal & n & Hlog & Ht).
        exists terminal, n. rewrite Hlog. simpl. rewrite Hh, <- app_assoc. auto.
      * destruct (IH f Hlive) as (terminal & n & Hlog & Ht).
        exists terminal, n. rewrite Hlog, Hh. auto.
    + destruct (Hend (exec (error e) f) (error_flag e f)) as [n Hlog].
      rewrite Hlog, error_exec, Hlive, unsubscribe_exec.
      destruct (IHandlers.next _), (IHandlers.error _), (_unsubscribe (this f)) eqn:Htd;
        simpl; rewrite ?Htd; simpl;
        first [ by exists [OnError e], (S n); simpl; rewrite <- !app_assoc
              | by exists [OnError e], n; simpl; rewrite <- !app_assoc
              | by exists [], (S n); simpl; rewrite <- !app_assoc
              | by exists [], n ].
    + destruct (Hend (exec complete f) (complete_flag f)) as [n Hlog].
      rewrite Hlog, complete_exec, Hlive, unsubscribe_exec.
      destruct (IHandlers.next _), (IHandlers.complete _), (_unsubscribe (this f)) eqn:Htd;
        simpl; rewrite ?Htd; simpl;
        first [ by exists [OnComplete], (S n); simpl; rewrite <- !app_assoc
              | by exists [OnComplete], n; simpl; rewrite <- !app_assoc
              | by exists [], (S n); simpl; rewrite <- !app_assoc
              | by exists [], n ].
    + destruct (Hend (exec unsubscribe f)) as [n Hlog];
        [by rewrite unsubscribe_this|].
      rewrite Hlog, unsubscribe_exec.
      destruct (IHandlers.next _), (_unsubscribe (this f)); simpl;
        first [ by exists [], (S n); simpl; rewrite <- !app_assoc
              | by exists [], n ].
Qed.

End ObserverSequences.

Section ObserverSequenceProperties.
Context {Env Err : Type}.
Implicit Types (f : Observer.Frame Env Err) (ops : list (Op Err)).

Import Observer.

Lemma received_app (l1 l2 : list (Call Err)) :
  received (l1 ++ l2) = received l1 ++ received l2.
Proof.
  induction l1 as [|[value|e| |] l1 IH]; simpl; rewrite ?IH; reflexivity.
Qed.

Lemma received_map_next (values : list IRequestObject.t) :
  received (map (@OnNext Err) values) = values.
Proof. induction values as [|value values IH]; simpl; by rewrite ?IH. Qed.

Lemma received_replicate_teardown n : received (replicate n (@Teardown Err)) = [].
Proof. induction n as [|n IH]; simpl; done. Qed.

Lemma received_terminal (calls : list (Call Err)) :
  at_most_one_terminal calls = true → received calls = [].
Proof. destruct calls as [|[value|e| |] [|c calls]]; simpl; done. Qed.

(** X1.  Once [isUnsubscribed] is true, no sequence of calls reaches a
    handler again and none changes the Observer: [next], [error] and
    [complete] do nothing, and each [unsubscribe] in the sequence runs the
    attached teardown once more (nothing at all happens when no teardown
    is attached). *)
Theorem closed_observer_only_reruns_teardown ops f :
  _isUnsubscribed (this f) = true →
  let f' := exec (do_ops ops) f in
  let n := count is_unsubscribe_op ops in
  this f' = this f
  ∧ log f' = log f ++ match _unsubscribe (this f) with
                      | Some _ => replicate n Teardown
                      | None => []
                      end
  ∧ env f' = match _unsubscribe (this f) with
             | Some teardown => Nat.iter n teardown (env f)
             | None => env f
             end
  ∧ received (log f') = received (log f)
  ∧ count is_error (log f') = count is_error (log f)
  ∧ count is_complete (log f') = count is_complete (log f).
Proof.
  intros Hup. cbv zeta. rewrite do_ops_closed by exact Hup.
  destruct (_unsubscribe (this f)); cbn [this env log];
    rewrite ?received_app, ?received_replicate_teardown, ?app_nil_r,
      ?count_app, ?count_replicate_other by reflexivity;
    repeat split; lia.
Qed.

(** X2.  On an Observer that is not yet unsubscribed, a sequence of calls
    reaches the handlers in this order and no other: the [next] handler
    with each value pushed before the first [error], [complete] or
    [unsubscribe] call, in the order pushed; then at most one call of the
    [error] or of the [complete] handler; after that only teardowns.  No
    value pushed later is delivered. *)
Theorem live_observer_call_order ops f :
  _isUnsubscribed (this f) = false →
  let f' := exec (do_ops ops) f in
  let delivered := match IHandlers.next (_handlers (this f)) with
                   | Some _ => pushed_while_live ops
                   | None => []
                   end in
  (∃ terminal n,
     log f' = log f ++ map OnNext delivered ++ terminal ++ replicate n Teardown
     ∧ at_most_one_terminal terminal = true)
  ∧ received (log f') = received (log f) ++ delivered.
Proof.
  intros Hlive. cbv zeta.
  destruct (do_ops_live ops f Hlive) as (terminal & n & Hlog & Ht).
  split; [by exists terminal, n|].
  rewrite Hlog, !received_app, received_map_next, received_replicate_teardown,
    (received_terminal _ Ht), !app_nil_r.
  reflexivity.
Qed.

(** X3.  Whatever the state of the Observer and whatever the sequence of
    calls, the [error] and [complete] handlers are invoked at most once
    between them. *)
Theorem terminal_handlers_fire_at_most_once ops f :
  ∃ calls, log (exec (do_ops ops) f) = log f ++ calls
           ∧ count is_error calls + count is_complete calls ≤ 1.
Proof.
  destruct (_isUnsubscribed (this f)) eqn:Hflag.
  - rewrite do_ops_closed by exact Hflag.
    destruct (_unsubscribe (this f)).
    + eexists. split; [reflexivity|].
      rewrite !count_replicate_other by reflexivity. lia.
    + exists []. rewrite app_nil_r. simpl. auto.
  - destruct (do_ops_live ops f Hflag) as (terminal & n & Hlog & Ht).
    eexists. split; [exact Hlog|].
    destruct (count_terminal terminal Ht) as (_ & _ & Hle).
    rewrite !count_app, !count_map_next, !count_replicate_other by reflexivity. lia.
Qed.

(** X4.  No method of Observer changes the handlers or the teardown: after
    any sequence of calls the Observer is the one it was, except for the
    flag, and the flag (as the getter [isUnsubscribed] reads it) is up
    exactly when it was up before or the sequence contains an [error],
    [complete] or [unsubscribe] call. *)
Theorem observer_after_calls ops f :
  let f' := exec (do_ops ops) f in
  _handlers (this f') = _handlers (this f)
  ∧ _unsubscribe (this f') = _unsubscribe (this f)
  ∧ this f' = (if existsb ends_subscription ops then closed (this f) else this f)
  ∧ eval isUnsubscribed f'
    = _isUnsubscribed (this f) || existsb ends_subscription ops.
Proof.
  cbv zeta. unfold eval, isUnsubscribed. cbn [fst]. rewrite do_ops_this.
  destruct (existsb ends_subscription ops); simpl;
    rewrite ?orb_true_r, ?orb_false_r; auto.
Qed.

(** X9.  On an Observer that is not yet unsubscribed and has a teardown
    attached, one [complete()] invokes the [complete] handler if there is
    one, then raises [isUnsubscribed] and runs the teardown exactly once;
    the [next] and [error] handlers are not invoked. *)
Theorem complete_terminates (teardown : TTeardown Env) f :
  _isUnsubscribed (this f) = false →
  _unsubscribe (this f) = Some teardown →
  let f' := exec complete f in
  this f' = closed (this f)
  ∧ log f' = log f ++ match IHandlers.complete (_handlers (this f)) with
                      | Some _ => [OnComplete]
                      | None => []
                      end ++ [Teardown]
  ∧ env f' = teardown (complete_effect (IHandlers.complete (_handlers (this f))) (env f))
  ∧ count is_teardown (log f') = count is_teardown (log f) + 1
  ∧ received (log f') = received (log f)
  ∧ count is_error (log f') = count is_error (log f).
Proof.
  intros Hlive Htd. cbv zeta. rewrite complete_exec, Hlive, unsubscribe_exec.
  destruct (IHandlers.complete (_handlers (this f))) as [h|]; simpl;
    rewrite Htd; simpl;
    rewrite <- ?app_assoc, ?received_app, !count_app; simpl;
    rewrite ?app_nil_r; repeat split; try reflexivity; lia.
Qed.

End ObserverSequenceProperties.

(* ------------------------------------------------------------------ *)
(** ** Producers and handles: whole runs *)

Section Runs.
Context {Env Err : Type}.
Implicit Types (o : Observer.t Env Err) (pre : list (Observer.t Env Err)).
Implicit Types (w : Env) (tr : list (loc * Call Err)) (σ : State Env Err).
Implicit Types (hs : IHandlers.t Env Err) (ops : list (Op Err)).

Import Observer.

Lemma exec_on_some {A} (l : loc) (m : ST (Frame Env Err) A) σ o :
  heap σ !! l = Some o →
  exec (on l m) σ =
  {| heap := <[l := this (exec m (mkFrame o (world σ) []))]> (heap σ);
     world := env (exec m (mkFrame o (world σ) []));
     trace := trace σ ++ map (pair l) (log (exec m (mkFrame o (world σ) []))) |}.
Proof.
  intros Hl. unfold exec, on. rewrite Hl. by destruct (m _).
Qed.

Lemma exec_on_none {A} (l : loc) (m : ST (Frame Env Err) A) σ :
  heap σ !! l = None → exec (on l m) σ = σ.
Proof. intros Hl. unfold exec, on. by rewrite Hl. Qed.

(** One call on an Observer with no teardown attached: what is logged. *)
Lemma do_op_detached_log (op : Op Err) o w :
  _unsubscribe o = None →
  log (exec (do_op op) (mkFrame o w [])) =
  if _isUnsubscribed o then []
  else match op with
       | DoNext value =>
           match IHandlers.next (_handlers o) with Some _ => [OnNext value] | None => [] end
       | DoError e =>
           match IHandlers.error (_handlers o) with Some _ => [OnError e] | None => [] end
       | DoComplete =>
           match IHandlers.complete (_handlers o) with Some _ => [OnComplete] | None => [] end
       | DoUnsubscribe => []
       end.
Proof.
  destruct o as [[hn he hc] b u]; simpl; intros ->.
  destruct op as [value|e| |]; simpl;
    rewrite ?next_exec, ?error_exec, ?complete_exec, ?unsubscribe_exec; simpl.
  - by destruct hn, b.
  - destruct he, b; simpl; by rewrite ?unsubscribe_exec.
  - destruct hc, b; simpl; by rewrite ?unsubscribe_exec.
  - by destruct b.
Qed.

(** What any producer makes the Observer tell the handlers while it runs
    against a fresh Observer: values, then at most one terminal
    notification; nothing once the flag is up. *)
Lemma run_protocol (p : TSubscribeFunc Env Err) pre o w tr :
  _unsubscribe o = None →
  ∃ o' values terminal,
    heap (exec (run p (length pre)) {| heap := pre ++ [o]; world := w; trace := tr |})
      = pre ++ [o']
    ∧ trace (exec (run p (length pre)) {| heap := pre ++ [o]; world := w; trace := tr |})
      = tr ++ map (pair (length pre))
                  (if _isUnsubscribed o then [] else map OnNext values ++ terminal)
    ∧ at_most_one_terminal terminal = true.
Proof.
  revert o w tr.
  assert (Hstep : ∀ (op : Op Err) (k : TSubscribeFunc Env Err),
    (∀ o w tr, _unsubscribe o = None →
       ∃ o' values terminal,
         heap (exec (run k (length pre)) {| heap := pre ++ [o]; world := w; trace := tr |})
           = pre ++ [o']
         ∧ trace (exec (run k (length pre)) {| heap := pre ++ [o]; world := w; trace := tr |})
           = tr ++ map (pair (length pre))
                       (if _isUnsubscribed o then [] else map OnNext values ++ terminal)
         ∧ at_most_one_terminal terminal = true) →
    ∀ o w tr, _unsubscribe o = None →
       ∃ o' values terminal,
         heap (exec (on (length pre) (do_op op);; run k (length pre))
                 {| heap := pre ++ [o]; world := w; trace := tr |})
           = pre ++ [o']
         ∧ trace (exec (on (length pre) (do_op op);; run k (length pre))
                 {| heap := pre ++ [o]; world := w; trace := tr |})
           = tr ++ map (pair (length pre))
                       (if _isUnsubscribed o then [] else map OnNext values ++ terminal)
         ∧ at_most_one_terminal terminal = true).
  { intros op k IH o w tr Ho.
    rewrite exec_bind, exec_on_last, do_op_detached_log, do_op_this by exact Ho.
    cbn [this].
    set (o1 := if ends_subscription op then closed o else o).
    assert (Ho1 : _unsubscribe o1 = None) by (subst o1; by destruct (ends_subscription op)).
    destruct (IH o1 (env (exec (do_op op) (mkFrame o w [])))
                (tr ++ map (pair (length pre))
                   (if _isUnsubscribed o then []
                    else match op with
                         | DoNext value =>
                             match IHandlers.next (_handlers o) with
                             | Some _ => [OnNext value] | None => [] end
                         | DoError e =>
                             match IHandlers.error (_handlers o) with
                             | Some _ => [OnError e] | None => [] end
                         | DoComplete =>
                             match IHandlers.complete (_handlers o) with
                             | Some _ => [OnComplete] | None => [] end
                         | DoUnsubscribe => []
                         end)) Ho1)
      as (o' & values & terminal & Hheap & Htr & Ht).
    rewrite Hheap, Htr. clear Hheap Htr IH. subst o1.
    destruct (_isUnsubscribed o) eqn:Hflag.
    { exists o', [], []. destruct (ends_subscription op); simpl; rewrite ?Hflag;
        simpl; rewrite ?app_nil_r; auto. }
    destruct op as [value|e| |]; simpl; rewrite ?Hflag.
    - destruct (IHandlers.next (_handlers o)).
      + exists o', (value :: values), terminal. simpl. rewrite <- app_assoc. auto.
      + exists o', values, terminal. simpl. rewrite app_nil_r. auto.
    - destruct (IHandlers.error (_handlers o));
        [exists o', [], [OnError e]|exists o', [], []]; simpl; rewrite ?app_nil_r; auto.
    - destruct (IHandlers.complete (_handlers o));
        [exists o', [], [OnComplete]|exists o', [], []]; simpl; rewrite ?app_nil_r; auto.
    - exists o', [], []. simpl. rewrite ?app_nil_r. auto. }
  induction p as [teardown|value k IH|e k IH|k IH|k IH|k IH|g k IH]; intros o w tr Ho.
  - exists o, [], []. simpl. destruct (_isUnsubscribed o); rewrite app_nil_r; auto.
  - apply (Hstep (DoNext value) k IH), Ho.
  - apply (Hstep (DoError e) k IH), Ho.
  - apply (Hstep DoComplete k IH), Ho.
  - apply (Hstep DoUnsubscribe k IH), Ho.
  - simpl run. rewrite exec_bind, exec_on_last, eval_on_last.
    simpl. rewrite app_nil_r. apply IH, Ho.
  - simpl run. rewrite exec_bind. apply IH, Ho.
Qed.

(** The state in which [subscribe] returns, for any producer. *)
Lemma subscribe_state (p : TSubscribeFunc Env Err) hs σ :
  ∃ o w values terminal,
    exec (Observable.subscribe (Observable.mk p) hs) σ =
    {| heap := heap σ ++ [o];
       world := w;
       trace := trace σ ++ map (pair (length (heap σ))) (map OnNext values ++ terminal) |}
    ∧ at_most_one_terminal terminal = true
    ∧ _handlers o = hs
    ∧ is_Some (_unsubscribe o).
Proof.
  rewrite exec_subscribe. cbn [Observable._subscribe].
  replace (exec (alloc (new hs)) σ)
    with {| heap := heap σ ++ [new hs]; world := world σ; trace := trace σ |}
    by reflexivity.
  destruct (run_protocol p (heap σ) (new hs) (world σ) (trace σ) eq_refl)
    as (o' & values & terminal & Hheap & Htr & Ht).
  destruct (run_detached p (heap σ) (new hs) (world σ) (trace σ) eq_refl)
    as (o'' & calls & Hheap' & Hu & Hh & _).
  rewrite Hheap in Hheap'. apply app_inj_tail in Hheap' as [_ <-].
  set (teardown := eval (run p (length (heap σ))) _).
  destruct (exec (run p (length (heap σ))) _) as [h w tr].
  cbn [heap trace] in Hheap, Htr. subst h tr.
  rewrite exec_on_last. simpl. rewrite app_nil_r.
  eexists _, w, values, terminal. split; [reflexivity|].
  simpl. split; [exact Ht|]. split; [exact Hh|]. by eexists.
Qed.

End Runs.

Section RunProperties.
Context {Env Err : Type}.
Implicit Types (σ : State Env Err) (hs : IHandlers.t Env Err) (ops : list (Op Err)).

Import Observer.

(** X5.  [unsubscribe()] on a handle touches the Observer of that handle
    and no other object: the heap keeps its size, every other Observer is
    what it was, the handle's own Observer gets its flag raised, and the
    only call made is that Observer's teardown, when it has one. *)
Theorem cancelling_touches_own_observer_only (s : Subscription.t) σ (l' : loc) :
  let l := Subscription.observer s in
  let σ' := exec (Subscription.unsubscribe s) σ in
  length (heap σ') = length (heap σ)
  ∧ heap σ' !! l' = (if decide (l' = l) then closed <$> heap σ !! l' else heap σ !! l')
  ∧ trace σ' = trace σ ++ match heap σ !! l with
                          | Some o => match _unsubscribe o with
                                      | Some _ => [(l, Teardown)]
                                      | None => []
                                      end
                          | None => []
                          end
  ∧ world σ' = match heap σ !! l with
               | Some o => match _unsubscribe o with
                           | Some teardown => teardown (world σ)
                           | None => world σ
                           end
               | None => world σ
               end.
Proof.
  cbv zeta. unfold Subscription.unsubscribe. rewrite exec_bind, exec_ret.
  destruct (heap σ !! Subscription.observer s) as [o|] eqn:Hl.
  - rewrite (exec_on_some _ _ _ o Hl), unsubscribe_exec. cbn [this env log].
    assert (Hthis : this (match _unsubscribe o with
                          | Some teardown =>
                              {| this := closed o; env := teardown (world σ);
                                 log := [] ++ [Teardown] |}
                          | None => {| this := closed o; env := world σ; log := [] |}
                          end) = closed o) by (by destruct (_unsubscribe o)).
    cbn [heap world trace]. rewrite Hthis, length_insert.
    split; [reflexivity|]. split.
    + destruct (decide (l' = Subscription.observer s)) as [->|Hne].
      * rewrite Hl. simpl. apply list_lookup_insert_eq.
        by apply lookup_lt_Some with o.
      * by apply list_lookup_insert_ne.
    + destruct (_unsubscribe o); simpl; rewrite ?app_nil_r; auto.
  - rewrite exec_on_none by exact Hl. rewrite app_nil_r.
    split; [reflexivity|]. split; [|auto].
    destruct (decide (l' = Subscription.observer s)) as [->|Hne]; [|reflexivity].
    by rewrite Hl.
Qed.

(** X6.  After [subscribe] (any producer) and [unsubscribe()] on the
    handle, calls that still arrive at the Observer, for instance from a
    producer that kept it, reach no handler and leave the heap as it is:
    [next], [error] and [complete] are dropped; a further [unsubscribe]
    runs the teardown again. *)
Theorem late_calls_after_cancel (p : TSubscribeFunc Env Err) hs ops σ :
  let s := eval (Observable.subscribe (Observable.mk p) hs) σ in
  let σ1 := exec (Observable.subscribe (Observable.mk p) hs) σ in
  let σ2 := exec (Subscription.unsubscribe s) σ1 in
  let σ3 := exec (on (Subscription.observer s) (do_ops ops)) σ2 in
  heap σ3 = heap σ2
  ∧ calls_since σ2 σ3 = replicate (count is_unsubscribe_op ops) Teardown
  ∧ received (calls_since σ2 σ3) = []
  ∧ count is_error (calls_since σ2 σ3) = 0
  ∧ count is_complete (calls_since σ2 σ3) = 0.
Proof.
  cbv zeta. rewrite eval_subscribe. cbn [Subscription.observer].
  destruct (subscribe_state p hs σ) as (o & w & values & terminal & -> & _ & _ & [td Htd]).
  rewrite handle_unsubscribe_last, Htd, exec_on_last.
  rewrite do_ops_closed by reflexivity. cbn [this closed _unsubscribe].
  rewrite Htd. cbn [this env log heap trace]. rewrite app_nil_l.
  erewrite calls_since_app by reflexivity.
  rewrite received_replicate_teardown, !count_replicate_other by reflexivity.
  auto.
Qed.

(** X7.  Whatever a producer does with the Observer it is handed, while
    [subscribe] runs the handlers are told values and then at most one
    terminal notification, nothing after it, and no teardown runs. *)
Theorem any_producer_obeys_protocol (p : TSubscribeFunc Env Err) hs σ :
  let σ1 := exec (Observable.subscribe (Observable.mk p) hs) σ in
  (∃ values terminal,
     calls_since σ σ1 = map OnNext values ++ terminal
     ∧ at_most_one_terminal terminal = true)
  ∧ count is_error (calls_since σ σ1) + count is_complete (calls_since σ σ1) ≤ 1
  ∧ count is_teardown (calls_since σ σ1) = 0.
Proof.
  cbv zeta.
  destruct (subscribe_state p hs σ) as (o & w & values & terminal & -> & Ht & _ & _).
  erewrite calls_since_app by reflexivity.
  destruct (count_terminal terminal Ht) as (_ & Htd & Hle).
  rewrite !count_app, !count_map_next by reflexivity.
  split; [by exists values, terminal|]. lia.
Qed.

(** X8.  Subscribing to [from(values)], for any values and any handlers:
    the [next] handler, if there is one, is invoked once per value; the
    [error] handler never; the [complete] handler, if there is one, once;
    no teardown runs. *)
Theorem from_call_counts `{Console Env} (values : list IRequestObject.t) hs σ :
  let σ1 := exec (Observable.subscribe (Observable.from values) hs) σ in
  count is_next (calls_since σ σ1)
    = match IHandlers.next hs with Some _ => length values | None => 0 end
  ∧ count is_error (calls_since σ σ1) = 0
  ∧ count is_complete (calls_since σ σ1)
    = match IHandlers.complete hs with Some _ => 1 | None => 0 end
  ∧ count is_teardown (calls_since σ σ1) = 0.
Proof.
  cbv zeta. rewrite exec_subscribe_from.
  erewrite calls_since_app by reflexivity.
  unfold deliveries. rewrite !count_app.
  assert (Hn : count is_next (map (@OnNext Err) values) = length values).
  { induction values as [|value values IH]; simpl; by rewrite ?IH. }
  destruct (IHandlers.next hs), (IHandlers.complete hs); simpl;
    rewrite ?Hn, ?count_map_next by reflexivity; repeat split; lia.
Qed.


End RunProperties.

Lemma closed_observer_only_reruns_teardown_witness :
  let f := exec Observer.complete armed in
  let ops := [DoNext ping; DoUnsubscribe; DoError "late"; DoUnsubscribe; DoComplete] in
  Observer._isUnsubscribed (Observer.this f) = true
  ∧ Observer.this (exec (do_ops ops) f) = Observer.this f
  ∧ Observer.log (exec (do_ops ops) f) = Observer.log f ++ [Teardown; Teardown]
  ∧ Observer.env (exec (do_ops ops) f)
    = ["unsubscribed"; "unsubscribed"; "unsubscribed"]
  ∧ received (Observer.log (exec (do_ops ops) f)) = received (Observer.log f)
  ∧ count is_error (Observer.log (exec (do_ops ops) f))
    = count is_error (Observer.log f)
  ∧ count is_complete (Observer.log (exec (do_ops ops) f))
    = count is_complete (Observer.log f).
Proof.
  split; [reflexivity|].
  apply (closed_observer_only_reruns_teardown
           [DoNext ping; DoUnsubscribe; DoError "late"; DoUnsubscribe; DoComplete]
           (exec Observer.complete armed)).
  reflexivity.
Defined.

Lemma live_observer_call_order_witness :
  let ops := [DoNext ping; DoComplete; DoNext ping; DoUnsubscribe] in
  Observer._isUnsubscribed (Observer.this listening) = false
  ∧ (∃ terminal n,
       Observer.log (exec (do_ops ops) listening)
       = Observer.log listening ++ map OnNext [ping] ++ terminal ++ replicate n Teardown
       ∧ at_most_one_terminal terminal = true)
  ∧ received (Observer.log (exec (do_ops ops) listening))
    = received (Observer.log listening) ++ [ping].
Proof.
  split; [reflexivity|].
  apply (live_observer_call_order
           [DoNext ping; DoComplete; DoNext ping; DoUnsubscribe] listening).
  reflexivity.
Defined.

Lemma complete_terminates_witness :
  let f' := exec Observer.complete listening in
  Observer._isUnsubscribed (Observer.this listening) = false
  ∧ Observer._unsubscribe (Observer.this listening) = Some logTeardown
  ∧ Observer.this f' = closed (Observer.this listening)
  ∧ Observer.log f' = [OnComplete; Teardown]
  ∧ Observer.env f' = ["complete"; "unsubscribed"]
  ∧ count is_teardown (Observer.log f') = 1
  ∧ received (Observer.log f') = []
  ∧ count is_error (Observer.log f') = 0.
Proof.
  split; [reflexivity|]. split; [reflexivity|].
  apply (complete_terminates logTeardown listening); reflexivity.
Defined.

